(** * Auth environment configurator and environment credential backend

    A shallow embedding of
    - [packages/shared/src/auth/env.ts] (the Configurator:
      [setAuthEnvironment], [clearAuthEnvironment], [isProxyAuthConfigured]),
    - [packages/shared/src/credentials/backends/env.ts] (the Backend:
      [ENV_MAP], [hasEnvProxyConfig], [getEnvValue], [EnvironmentBackend]),
    and the properties of the two that the specification states.

    [process.env] is a finite map from variable names to strings.  Every
    function of the two files runs in a small state-and-exception monad
    over that map: a read is [getenv], an assignment is [setenv], a
    [delete process.env.X] is [unsetenv], and [throw new Error(..)] is
    [throw]. *)

From stdpp Require Import gmap strings list.

Local Open Scope string_scope.
Local Open Scope list_scope.

(** ** The process environment and the monad of the code *)

Abbreviation env := (gmap string string).

Inductive outcome (A : Type) : Type :=
| Returned (a : A)
| Thrown (message : string).
Arguments Returned {A} a.
Arguments Thrown {A} message.

Definition Proc (A : Type) : Type := env -> outcome A * env.

Definition ret {A} (a : A) : Proc A := fun e => (Returned a, e).

Definition bind {A B} (c : Proc A) (k : A -> Proc B) : Proc B :=
  fun e =>
    match c e with
    | (Returned a, e') => k a e'
    | (Thrown m, e') => (Thrown m, e')
    end.

Definition throw {A} (message : string) : Proc A := fun e => (Thrown message, e).

(** [process.env[name]] *)
Definition getenv (name : string) : Proc (option string) :=
  fun e => (Returned (e !! name), e).

(** [process.env[name] = value] *)
Definition setenv (name value : string) : Proc unit :=
  fun e => (Returned tt, <[name := value]> e).

(** [delete process.env[name]] *)
Definition unsetenv (name : string) : Proc unit :=
  fun e => (Returned tt, delete name e).

Declare Scope proc_scope.
Delimit Scope proc_scope with proc.
Bind Scope proc_scope with Proc.
Notation "'let*' x := c 'in' k" := (bind c (fun x => k))
  (at level 10, x name, c at level 100, k at level 200) : proc_scope.
Notation "c ;; k" := (bind c (fun _ => k))
  (at level 100, k at level 200, right associativity) : proc_scope.
Local Open Scope proc_scope.

(** The value a call produces and the environment it leaves behind. *)
Definition result_of {A} (c : Proc A) (e : env) : outcome A := fst (c e).
Definition env_after {A} (c : Proc A) (e : env) : env := snd (c e).

(** JavaScript truthiness of a [string] and of a [string | undefined]. *)
Definition nonempty (s : string) : bool :=
  match s with
  | EmptyString => false
  | String _ _ => true
  end.

Definition truthy (v : option string) : bool :=
  match v with
  | Some s => nonempty s
  | None => false
  end.

(** [if (field) { body(field) }] on an optional string field. *)
Definition if_truthy (field : option string) (body : string -> Proc unit) : Proc unit :=
  match field with
  | Some s => if nonempty s then body s else ret tt
  | None => ret tt
  end.

(** ** Environment variable names *)

Definition ANTHROPIC_API_KEY : string := "ANTHROPIC_API_KEY".
Definition CLAUDE_CODE_OAUTH_TOKEN : string := "CLAUDE_CODE_OAUTH_TOKEN".
Definition ANTHROPIC_AUTH_TOKEN : string := "ANTHROPIC_AUTH_TOKEN".
Definition ANTHROPIC_BASE_URL : string := "ANTHROPIC_BASE_URL".
Definition CRAFT_ANTHROPIC_API_KEY : string := "CRAFT_ANTHROPIC_API_KEY".
Definition CRAFT_CLAUDE_OAUTH_TOKEN : string := "CRAFT_CLAUDE_OAUTH_TOKEN".

(** The four slots the Configurator manages. *)
Definition managed_slots : list string :=
  [ANTHROPIC_API_KEY; CLAUDE_CODE_OAUTH_TOKEN; ANTHROPIC_AUTH_TOKEN; ANTHROPIC_BASE_URL].

(** ** auth/env.ts *)

Module ApiKeyCredentials.
Record t : Type := mk { apiKey : string; baseUrl : option string }.
End ApiKeyCredentials.

Module ClaudeMaxCredentials.
Record t : Type := mk { oauthToken : string }.
End ClaudeMaxCredentials.

Module ProxyCredentials.
Record t : Type := mk { authToken : option string; apiKey : option string; baseUrl : string }.
End ProxyCredentials.

Inductive AuthCredentials : Type :=
| api_key (credentials : ApiKeyCredentials.t)
| oauth_token (credentials : ClaudeMaxCredentials.t)
| proxy (credentials : ProxyCredentials.t).

Definition setAuthEnvironment (auth : AuthCredentials) : Proc unit :=
  unsetenv ANTHROPIC_API_KEY ;;
  unsetenv CLAUDE_CODE_OAUTH_TOKEN ;;
  unsetenv ANTHROPIC_AUTH_TOKEN ;;
  unsetenv ANTHROPIC_BASE_URL ;;
  match auth with
  | api_key credentials =>
      setenv ANTHROPIC_API_KEY (ApiKeyCredentials.apiKey credentials) ;;
      if_truthy (ApiKeyCredentials.baseUrl credentials)
        (fun baseUrl => setenv ANTHROPIC_BASE_URL baseUrl)
  | oauth_token credentials =>
      setenv CLAUDE_CODE_OAUTH_TOKEN (ClaudeMaxCredentials.oauthToken credentials)
  | proxy credentials =>
      setenv ANTHROPIC_BASE_URL (ProxyCredentials.baseUrl credentials) ;;
      if_truthy (ProxyCredentials.authToken credentials)
        (fun authToken => setenv ANTHROPIC_AUTH_TOKEN authToken) ;;
      if_truthy (ProxyCredentials.apiKey credentials)
        (fun apiKey => setenv ANTHROPIC_API_KEY apiKey)
  end.

Definition clearAuthEnvironment : Proc unit :=
  unsetenv ANTHROPIC_API_KEY ;;
  unsetenv CLAUDE_CODE_OAUTH_TOKEN ;;
  unsetenv ANTHROPIC_AUTH_TOKEN ;;
  unsetenv ANTHROPIC_BASE_URL.

(** [!!(BASE_URL && (AUTH_TOKEN || API_KEY))], with the short-circuit
    order of the reads. *)
Definition isProxyAuthConfigured : Proc bool :=
  let* base := getenv ANTHROPIC_BASE_URL in
  if truthy base then
    let* token := getenv ANTHROPIC_AUTH_TOKEN in
    if truthy token then ret true
    else
      let* key := getenv ANTHROPIC_API_KEY in
      ret (truthy key)
  else ret false.

(** ** credentials/backends/env.ts *)

(** Modelled from the spec: [CredentialId], declared in
    [credentials/types.ts], is
    [{ type: enum{anthropic_api_key, claude_oauth, anthropic_auth_token, ...},
       workspaceId?: string }].  The backend reads [id.type], as the string
    that indexes [ENV_MAP], and [id.workspaceId], and builds [{ type }]. *)
Record CredentialId : Type :=
  { type : string; workspaceId : option string }.

(** Modelled from the spec: [StoredCredential], declared in
    [credentials/types.ts], is [{ value: string }]. *)
Record StoredCredential : Type :=
  { value : string }.

(** [Partial<CredentialId>], the type of the optional [list] filter. *)
Record PartialCredentialId : Type :=
  { filter_type : option string; filter_workspaceId : option string }.

(** The object literal [ENV_MAP], its entries in insertion order (the order
    [Object.entries] yields). *)
Definition ENV_MAP : list (string * list string) :=
  [ ("anthropic_api_key", [CRAFT_ANTHROPIC_API_KEY; ANTHROPIC_API_KEY]);
    ("claude_oauth", [CRAFT_CLAUDE_OAUTH_TOKEN]);
    ("anthropic_auth_token", [ANTHROPIC_AUTH_TOKEN]) ].

(** The own entry of the object literal under [key], if it has one. *)
Fixpoint entry_of (entries : list (string * list string)) (key : string)
  : option (list string) :=
  match entries with
  | [] => None
  | (name, envVars) :: rest =>
      if String.eqb name key then Some envVars else entry_of rest key
  end.

(** The names of the properties a plain object literal inherits from
    [Object.prototype]. *)
Definition Object_prototype_names : list string :=
  [ "constructor"; "__proto__"; "toString"; "toLocaleString"; "valueOf";
    "hasOwnProperty"; "isPrototypeOf"; "propertyIsEnumerable";
    "__defineGetter__"; "__defineSetter__"; "__lookupGetter__";
    "__lookupSetter__" ].

(** What a property read on [ENV_MAP] yields: the array of an own entry,
    a member inherited from [Object.prototype] (a function, or the
    prototype object itself for [__proto__]: truthy, and not iterable), or
    [undefined]. *)
Inductive property_value : Type :=
| own_array (envVars : list string)
| inherited_member
| undefined_property.

(** [ENV_MAP[key]]: own entries first, then the prototype chain. *)
Definition ENV_MAP_at (key : string) : property_value :=
  match entry_of ENV_MAP key with
  | Some envVars => own_array envVars
  | None =>
      if decide (key ∈ Object_prototype_names) then inherited_member
      else undefined_property
  end.

(** The [TypeError] that [for (const envVar of envVars)] raises in
    [getEnvValue] when [envVars] is not iterable. *)
Definition not_iterable : string := "TypeError: envVars is not iterable".

Definition hasEnvProxyConfig : Proc bool :=
  let* base := getenv ANTHROPIC_BASE_URL in
  if truthy base then
    let* token := getenv ANTHROPIC_AUTH_TOKEN in
    if truthy token then ret true
    else
      let* key := getenv ANTHROPIC_API_KEY in
      ret (truthy key)
  else ret false.

Definition getEnvBaseUrl : Proc (option string) := getenv ANTHROPIC_BASE_URL.

Definition getEnvAuthToken : Proc (option string) := getenv ANTHROPIC_AUTH_TOKEN.

(** Find the first env var that has a value.  [envVars] is an array
    here; [get] accounts for the call at a value that is not one. *)
Fixpoint getEnvValue (envVars : list string) : Proc (option string) :=
  match envVars with
  | [] => ret None
  | envVar :: rest =>
      let* value := getenv envVar in
      if truthy value then ret value else getEnvValue rest
  end.

(** The methods of the class are [async]: [Returned] is the value the
    promise resolves to, [Thrown] the error it rejects with. *)
Module EnvironmentBackend.

Definition name : string := "environment".
Definition priority : Z := 110.

Definition isAvailable : Proc bool := ret true.

(** [if (!envVars)] lets through every truthy value: the array of an own
    entry, and also an inherited member, at which the [for ... of] of
    [getEnvValue] throws. *)
Definition get (id : CredentialId) : Proc (option StoredCredential) :=
  if truthy (workspaceId id) then ret None
  else
    match ENV_MAP_at (type id) with
    | undefined_property => ret None
    | inherited_member => throw not_iterable
    | own_array envVars =>
        let* value := getEnvValue envVars in
        match value with
        | Some v => if nonempty v then ret (Some {| value := v |}) else ret None
        | None => ret None
        end
    end.

Definition set (_id : CredentialId) (_credential : StoredCredential) : Proc unit :=
  throw "Environment backend is read-only".

Definition delete (_id : CredentialId) : Proc bool := ret false.

(** The body of the [for ... of Object.entries(ENV_MAP)] loop of [list],
    [ids] being the array built so far. *)
Fixpoint list_loop (entries : Datatypes.list (string * Datatypes.list string))
    (ids : Datatypes.list CredentialId) : Proc (Datatypes.list CredentialId) :=
  match entries with
  | [] => ret ids
  | (type, envVars) :: rest =>
      let* found := getEnvValue envVars in
      if truthy found
      then list_loop rest (ids ++ [ {| type := type; workspaceId := None |} ])
      else list_loop rest ids
  end.

Definition list (_filter : option PartialCredentialId)
  : Proc (Datatypes.list CredentialId) :=
  list_loop ENV_MAP [].

End EnvironmentBackend.

(** * Properties *)

(** ** Vocabulary of the specification *)

(** A slot is non-empty when the variable is set to a string other than
    the empty one; it is empty otherwise (unset, or set to the empty
    string). *)
Definition slot_nonempty (e : env) (slot : string) : Prop :=
  exists v, e !! slot = Some v /\ v <> "".

(** A slot is populated when the variable is set at all. *)
Definition populated (e : env) (slot : string) : Prop := is_Some (e !! slot).

(** An optional input field is provided when the object has it. *)
Definition provided (field : option string) : Prop := is_Some field.

(** The slots a variant of [AuthCredentials] may write. *)
Definition variant_slots (auth : AuthCredentials) : list string :=
  match auth with
  | api_key _ => [ANTHROPIC_API_KEY; ANTHROPIC_BASE_URL]
  | oauth_token _ => [CLAUDE_CODE_OAUTH_TOKEN]
  | proxy _ => [ANTHROPIC_BASE_URL; ANTHROPIC_AUTH_TOKEN; ANTHROPIC_API_KEY]
  end.

(** An optional field as an environment entry: written when it is a
    non-empty string, left out otherwise. *)
Definition optional_entry (field : option string) : option string :=
  if truthy field then field else None.

(** The entry each variant implies for a slot: required fields as they
    are, optional fields through [optional_entry], nothing elsewhere. *)
Definition implied_entry (auth : AuthCredentials) (slot : string) : option string :=
  match auth with
  | api_key c =>
      if decide (slot = ANTHROPIC_API_KEY) then Some (ApiKeyCredentials.apiKey c)
      else if decide (slot = ANTHROPIC_BASE_URL)
           then optional_entry (ApiKeyCredentials.baseUrl c)
           else None
  | oauth_token c =>
      if decide (slot = CLAUDE_CODE_OAUTH_TOKEN)
      then Some (ClaudeMaxCredentials.oauthToken c)
      else None
  | proxy c =>
      if decide (slot = ANTHROPIC_BASE_URL) then Some (ProxyCredentials.baseUrl c)
      else if decide (slot = ANTHROPIC_AUTH_TOKEN)
           then optional_entry (ProxyCredentials.authToken c)
           else if decide (slot = ANTHROPIC_API_KEY)
                then optional_entry (ProxyCredentials.apiKey c)
                else None
  end.

(** The environment [clearAuthEnvironment] and the first four statements
    of [setAuthEnvironment] leave behind. *)
Definition cleared (e : env) : env :=
  delete ANTHROPIC_BASE_URL
    (delete ANTHROPIC_AUTH_TOKEN
       (delete CLAUDE_CODE_OAUTH_TOKEN
          (delete ANTHROPIC_API_KEY e))).

(** [v] is the value of the first variable of [envVars], in list order,
    that holds a non-empty value. *)
Definition first_nonempty (e : env) (envVars : list string) (v : string) : Prop :=
  exists i envVar,
    envVars !! i = Some envVar /\ e !! envVar = Some v /\ v <> "" /\
    forall j earlier, j < i -> envVars !! j = Some earlier -> ~ slot_nonempty e earlier.

(** No variable of [envVars] holds a non-empty value. *)
Definition none_nonempty (e : env) (envVars : list string) : Prop :=
  forall envVar, envVar ∈ envVars -> ~ slot_nonempty e envVar.

(** An entry of [ENV_MAP] has a value in [e] when one of its variables
    holds a non-empty value. *)
Definition has_value (e : env) (entry : string * list string) : bool :=
  existsb (fun envVar => truthy (e !! envVar)) (snd entry).

(** The identity [{ type: name }], with no [workspaceId]. *)
Definition global_id (name : string) : CredentialId :=
  {| type := name; workspaceId := None |}.

(** [id.workspaceId] is a non-empty string: what [if (id.workspaceId)]
    tests. *)
Definition scoped (id : CredentialId) : Prop :=
  exists w, workspaceId id = Some w /\ w <> "".


(** ** Concrete inputs *)

(** The proxy credential with an empty [authToken] and no [apiKey]. *)
Definition proxy_with_empty_authToken : ProxyCredentials.t :=
  ProxyCredentials.mk (Some "") None "https://proxy.example".

(** The api_key credential whose [baseUrl] is present and empty. *)
Definition api_key_with_empty_baseUrl : ApiKeyCredentials.t :=
  ApiKeyCredentials.mk "sk-ant-1" (Some "").

(** The identity with an empty [workspaceId], and an environment that
    holds a tool-specific API key. *)
Definition id_with_empty_workspace : CredentialId :=
  {| type := "anthropic_api_key"; workspaceId := Some "" |}.

Definition env_with_craft_key : env := {[ CRAFT_ANTHROPIC_API_KEY := "a" ]}.

(** ** Vocabulary of the further properties *)

(** An optional input field is given when it is a non-empty string: what
    [if (field)] tests. *)
Definition given (field : option string) : Prop :=
  exists v, field = Some v /\ v <> "".

(** Every variable name [ENV_MAP] mentions, in order. *)
Definition mapped_vars : list string := concat (ENV_MAP.*2).

(** [{ value }] around a found string. *)
Definition stored (found : option string) : option StoredCredential :=
  (fun v => {| value := v |}) <$> found.

(** An environment configured for a proxy, with an unrelated variable. *)
Definition env_with_proxy : env :=
  <[ ANTHROPIC_BASE_URL := "https://proxy.example" ]>
    (<[ ANTHROPIC_AUTH_TOKEN := "token" ]> ({[ "HOME" := "/root" ]})).

(** ** Running the primitives *)

Lemma nonempty_true (s : string) : nonempty s = true <-> s <> "".
Proof. destruct s; simpl; split; intros; congruence. Qed.

Lemma truthy_slot_nonempty (e : env) (slot : string) :
  truthy (e !! slot) = true <-> slot_nonempty e slot.
Proof.
  unfold slot_nonempty. destruct (e !! slot) as [v|]; simpl.
  - rewrite nonempty_true. split.
    + intros Hv. exists v. auto.
    + intros (w & Hw & Hne). congruence.
  - split; [discriminate | intros (w & Hw & _); discriminate].
Qed.

Lemma truthy_false_slot (e : env) (slot : string) :
  truthy (e !! slot) = false <-> ~ slot_nonempty e slot.
Proof.
  rewrite <- truthy_slot_nonempty. destruct (truthy (e !! slot)); split; congruence.
Qed.

Lemma optional_entry_Some (field : option string) (v : string) :
  optional_entry field = Some v <-> field = Some v /\ v <> "".
Proof.
  unfold optional_entry. destruct field as [s|]; simpl.
  - destruct s; simpl; split; intros H; try discriminate.
    + destruct H as [H Hne]. congruence.
    + split; [assumption | congruence].
    + tauto.
  - split; [discriminate | intros [H _]; discriminate].
Qed.

Lemma if_truthy_run (field : option string) (slot : string) (e : env) :
  if_truthy field (fun s => setenv slot s) e =
    (Returned tt, match optional_entry field with
                  | Some s => <[slot := s]> e
                  | None => e
                  end).
Proof.
  unfold if_truthy, optional_entry. destruct field as [s|]; simpl; [|reflexivity].
  destruct (nonempty s); reflexivity.
Qed.

(** ** Running the Configurator *)

Lemma clearAuthEnvironment_run (e : env) :
  clearAuthEnvironment e = (Returned tt, cleared e).
Proof. reflexivity. Qed.

Lemma cleared_managed (e : env) (slot : string) :
  slot ∈ managed_slots -> cleared e !! slot = None.
Proof.
  unfold managed_slots, cleared. rewrite !elem_of_cons, elem_of_nil.
  intros [-> | [-> | [-> | [-> | []]]]];
    rewrite !lookup_delete; repeat case_decide; done.
Qed.

Lemma cleared_other (e : env) (name : string) :
  name ∉ managed_slots -> cleared e !! name = e !! name.
Proof.
  unfold managed_slots, cleared. rewrite !not_elem_of_cons.
  intros (? & ? & ? & ? & _). by rewrite !lookup_delete_ne.
Qed.

(** Membership in / absence from [managed_slots], slot by slot. *)
Lemma not_managed (name : string) :
  name ∉ managed_slots <->
  name <> ANTHROPIC_API_KEY /\ name <> CLAUDE_CODE_OAUTH_TOKEN /\
  name <> ANTHROPIC_AUTH_TOKEN /\ name <> ANTHROPIC_BASE_URL.
Proof.
  unfold managed_slots. rewrite !not_elem_of_cons.
  pose proof (not_elem_of_nil name). tauto.
Qed.


Ltac slot_cases :=
  rewrite ?lookup_insert; repeat case_decide; subst;
  rewrite ?cleared_managed by assumption; try done.

Lemma setAuthEnvironment_run (auth : AuthCredentials) (e : env) :
  exists e', setAuthEnvironment auth e = (Returned tt, e') /\
    forall slot, e' !! slot =
      if decide (slot ∈ managed_slots) then implied_entry auth slot else e !! slot.
Proof.
  destruct auth as [c | c | c]; unfold setAuthEnvironment, bind; simpl;
    fold (cleared e); rewrite ?if_truthy_run; simpl; rewrite ?if_truthy_run;
    (eexists; split; [reflexivity|]); intros slot; case_decide as Hin.
  - destruct (optional_entry _); slot_cases.
  - apply not_managed in Hin as (? & ? & ? & ?).
    destruct (optional_entry _); rewrite ?lookup_insert_ne by done;
      by apply cleared_other, not_managed.
  - slot_cases.
  - apply not_managed in Hin as (? & ? & ? & ?).
    rewrite lookup_insert_ne by done. by apply cleared_other, not_managed.
  - destruct (optional_entry (ProxyCredentials.authToken c)),
      (optional_entry (ProxyCredentials.apiKey c)); slot_cases.
  - apply not_managed in Hin as (? & ? & ? & ?).
    destruct (optional_entry (ProxyCredentials.authToken c)),
      (optional_entry (ProxyCredentials.apiKey c));
      rewrite ?lookup_insert_ne by done; by apply cleared_other, not_managed.
Qed.

Lemma setAuthEnvironment_slot (auth : AuthCredentials) (e : env) (slot : string) :
  slot ∈ managed_slots ->
  env_after (setAuthEnvironment auth) e !! slot = implied_entry auth slot.
Proof.
  intros Hin. destruct (setAuthEnvironment_run auth e) as (e' & Hrun & Hlook).
  unfold env_after. rewrite Hrun. simpl. rewrite Hlook. by rewrite decide_True.
Qed.

Lemma managed_API_KEY : ANTHROPIC_API_KEY ∈ managed_slots.
Proof. unfold managed_slots. set_solver. Qed.

Lemma managed_OAUTH_TOKEN : CLAUDE_CODE_OAUTH_TOKEN ∈ managed_slots.
Proof. unfold managed_slots. set_solver. Qed.

Lemma managed_AUTH_TOKEN : ANTHROPIC_AUTH_TOKEN ∈ managed_slots.
Proof. unfold managed_slots. set_solver. Qed.

Lemma managed_BASE_URL : ANTHROPIC_BASE_URL ∈ managed_slots.
Proof. unfold managed_slots. set_solver. Qed.

#[local] Hint Resolve managed_API_KEY managed_OAUTH_TOKEN managed_AUTH_TOKEN
  managed_BASE_URL : core.

(** ** Running the Backend *)

Lemma first_nonempty_unique (e : env) (envVars : list string) (v w : string) :
  first_nonempty e envVars v -> first_nonempty e envVars w -> v = w.
Proof.
  intros (i & x & Hi & Hx & Hv & Hbefore) (j & y & Hj & Hy & Hw & Hbefore').
  destruct (lt_eq_lt_dec i j) as [[Hlt | ->] | Hlt].
  - exfalso. apply (Hbefore' i x Hlt Hi). by exists v.
  - congruence.
  - exfalso. apply (Hbefore j y Hlt Hj). by exists w.
Qed.

Lemma first_nonempty_not_none (e : env) (envVars : list string) (v : string) :
  first_nonempty e envVars v -> ~ none_nonempty e envVars.
Proof.
  intros (i & x & Hi & Hx & Hv & _) Hnone.
  apply (Hnone x).
  - apply list_elem_of_lookup. by exists i.
  - by exists v.
Qed.

(** [getEnvValue] reads only: it returns, leaves the environment as it
    was, and yields the first non-empty value or [undefined]. *)
Lemma getEnvValue_run (envVars : list string) (e : env) :
  exists r, getEnvValue envVars e = (Returned r, e) /\
    match r with
    | Some v => first_nonempty e envVars v
    | None => none_nonempty e envVars
    end.
Proof.
  induction envVars as [| envVar rest IH]; simpl.
  - exists None. split; [reflexivity|]. intros x Hx. by apply elem_of_nil in Hx.
  - unfold bind, getenv. destruct (truthy (e !! envVar)) eqn:Htruthy.
    + apply truthy_slot_nonempty in Htruthy as Hslot.
      destruct Hslot as (v & Hv & Hne).
      exists (Some v). rewrite Hv. split; [reflexivity|].
      exists 0, envVar. repeat split; try done. intros j earlier Hj. lia.
    + apply truthy_false_slot in Htruthy.
      destruct IH as (r & Hrun & Hr). exists r. split; [exact Hrun|].
      destruct r as [v|].
      * destruct Hr as (i & x & Hi & Hx & Hv & Hbefore).
        exists (S i), x. repeat split; try done.
        intros [|j] earlier Hj Hearlier; simpl in Hearlier.
        -- by injection Hearlier as <-.
        -- apply (Hbefore j earlier); [lia | done].
      * intros x Hx. apply elem_of_cons in Hx as [-> | Hx]; [done | by apply Hr].
Qed.

Lemma getEnvValue_truthy (envVars : list string) (e : env) (r : option string) :
  getEnvValue envVars e = (Returned r, e) ->
  truthy r = true <-> exists envVar, envVar ∈ envVars /\ slot_nonempty e envVar.
Proof.
  intros Hrun. destruct (getEnvValue_run envVars e) as (r' & Hrun' & Hr).
  assert (r' = r) as -> by congruence. destruct r as [v|]; simpl.
  - destruct Hr as (i & x & Hi & Hx & Hv & _). rewrite nonempty_true. split; [|done].
    intros _. exists x. split; [apply list_elem_of_lookup; by exists i | by exists v].
  - split; [discriminate|]. intros (x & Hx & Hslot). by destruct (Hr x Hx).
Qed.

Lemma has_value_spec (e : env) (entry : string * list string) :
  has_value e entry = true <->
  exists envVar, envVar ∈ snd entry /\ slot_nonempty e envVar.
Proof.
  unfold has_value. rewrite existsb_exists. split.
  - intros (x & Hx & Ht). exists x. split; [by apply list_elem_of_In|].
    by apply truthy_slot_nonempty.
  - intros (x & Hx & Hs). exists x. split; [by apply list_elem_of_In|].
    by apply truthy_slot_nonempty.
Qed.

Lemma list_loop_run (entries : list (string * list string))
    (ids : list CredentialId) (e : env) :
  EnvironmentBackend.list_loop entries ids e =
    (Returned
       (ids ++ (global_id <$> (filter (fun entry => has_value e entry = true) entries).*1)),
     e).
Proof.
  revert ids. induction entries as [| [name envVars] rest IH]; intros ids; simpl.
  - by rewrite app_nil_r.
  - unfold bind. destruct (getEnvValue_run envVars e) as (r & Hrun & _).
    rewrite Hrun. pose proof (getEnvValue_truthy envVars e r Hrun) as Htruthy.
    rewrite filter_cons. destruct (truthy r) eqn:Hr.
    + rewrite decide_True.
      * rewrite IH. simpl. by rewrite <- app_assoc.
      * apply has_value_spec. simpl. by apply Htruthy.
    + rewrite decide_False; [apply IH|].
      intros Hhas. apply has_value_spec in Hhas. simpl in Hhas.
      apply Htruthy in Hhas. discriminate.
Qed.

Lemma list_run (filter : option PartialCredentialId) (e : env) :
  EnvironmentBackend.list filter e =
    (Returned (global_id <$> (base.filter (fun entry => has_value e entry = true) ENV_MAP).*1), e).
Proof. unfold EnvironmentBackend.list. by rewrite list_loop_run. Qed.

Lemma entry_of_elem (entries : list (string * list string))
    (key : string) (envVars : list string) :
  NoDup entries.*1 ->
  entry_of entries key = Some envVars <-> (key, envVars) ∈ entries.
Proof.
  induction entries as [| [name vars] rest IH]; simpl; intros Hnodup.
  - split; [discriminate | intros H; by apply elem_of_nil in H].
  - apply NoDup_cons in Hnodup as [Hfresh Hnodup]. rewrite elem_of_cons.
    destruct (String.eqb_spec name key) as [-> | Hne].
    + split.
      * intros [= ->]. by left.
      * intros [[= ->] | Hin]; [done|].
        exfalso. apply Hfresh. apply list_elem_of_fmap. by exists (key, envVars).
    + rewrite (IH Hnodup). split; [by right|].
      intros [[= -> ->] | Hin]; [done | exact Hin].
Qed.

Lemma ENV_MAP_keys_NoDup : NoDup ENV_MAP.*1.
Proof. apply (bool_decide_unpack _). by vm_compute. Qed.

Lemma ENV_MAP_entry (key : string) (envVars : list string) :
  entry_of ENV_MAP key = Some envVars <-> (key, envVars) ∈ ENV_MAP.
Proof. apply entry_of_elem, ENV_MAP_keys_NoDup. Qed.

#[local] Instance global_id_inj : Inj (=) (=) global_id.
Proof. intros x y [= ->]. reflexivity. Qed.

Lemma truthy_scoped (id : CredentialId) : truthy (workspaceId id) = true <-> scoped id.
Proof.
  unfold scoped. destruct (workspaceId id) as [w|]; simpl.
  - rewrite nonempty_true. split.
    + intros Hw. by exists w.
    + intros (w' & [= ->] & Hw). done.
  - split; [discriminate | intros (w & Hw & _); discriminate].
Qed.

Lemma entry_anthropic_api_key :
  entry_of ENV_MAP "anthropic_api_key" =
    Some [CRAFT_ANTHROPIC_API_KEY; ANTHROPIC_API_KEY].
Proof. reflexivity. Qed.

Lemma entry_claude_oauth :
  entry_of ENV_MAP "claude_oauth" = Some [CRAFT_CLAUDE_OAUTH_TOKEN].
Proof. reflexivity. Qed.

Lemma entry_anthropic_auth_token :
  entry_of ENV_MAP "anthropic_auth_token" = Some [ANTHROPIC_AUTH_TOKEN].
Proof. reflexivity. Qed.

(** The keys of [ENV_MAP] are not names of inherited members. *)
Lemma own_key_not_inherited (key : string) (envVars : list string) :
  entry_of ENV_MAP key = Some envVars -> key ∉ Object_prototype_names.
Proof.
  rewrite ENV_MAP_entry. unfold ENV_MAP. rewrite !elem_of_cons, elem_of_nil.
  intros [[= -> _] | [[= -> _] | [[= -> _] | []]]];
    unfold Object_prototype_names; rewrite !not_elem_of_cons;
    repeat split; try discriminate; apply not_elem_of_nil.
Qed.

(** The four ways a call of [get] ends: [id] is scoped; the property read
    is [undefined]; it is an inherited member, and [getEnvValue] throws; it
    is the array of an own entry, and [getEnvValue] runs on it.  The
    environment is never changed. *)
Lemma get_cases (id : CredentialId) (e : env) :
  (scoped id /\ EnvironmentBackend.get id e = (Returned None, e)) \/
  (~ scoped id /\ entry_of ENV_MAP (type id) = None /\
   (type id ∉ Object_prototype_names) /\
   EnvironmentBackend.get id e = (Returned None, e)) \/
  (~ scoped id /\ entry_of ENV_MAP (type id) = None /\
   (type id ∈ Object_prototype_names) /\
   EnvironmentBackend.get id e = (Thrown not_iterable, e)) \/
  (~ scoped id /\
   exists envVars found,
     entry_of ENV_MAP (type id) = Some envVars /\
     getEnvValue envVars e = (Returned found, e) /\
     match found with
     | Some v => first_nonempty e envVars v
     | None => none_nonempty e envVars
     end /\
     EnvironmentBackend.get id e = (Returned (stored found), e)).
Proof.
  unfold EnvironmentBackend.get, ENV_MAP_at.
  destruct (truthy (workspaceId id)) eqn:Hws.
  { apply truthy_scoped in Hws. by left. }
  assert (~ scoped id) as Hglobal.
  { rewrite <- truthy_scoped. congruence. }
  right. destruct (entry_of ENV_MAP (type id)) as [envVars|] eqn:Hentry.
  - right; right. split; [exact Hglobal|].
    destruct (getEnvValue_run envVars e) as (found & Hrun & Hfound).
    exists envVars, found. split; [reflexivity|]. split; [exact Hrun|].
    split; [exact Hfound|]. unfold bind. rewrite Hrun.
    destruct found as [v|]; [|reflexivity].
    assert (nonempty v = true) as ->; [|reflexivity].
    apply nonempty_true. by destruct Hfound as (_ & _ & _ & _ & Hv & _).
  - destruct (decide (type id ∈ Object_prototype_names)) as [Hin | Hout].
    + right; left. done.
    + left. done.
Qed.

(** A type that names an inherited member makes [get] throw, unless [id]
    is scoped. *)
Lemma get_inherited_type_throws (id : CredentialId) (e : env) :
  ~ scoped id -> type id ∈ Object_prototype_names ->
  EnvironmentBackend.get id e = (Thrown not_iterable, e).
Proof.
  intros Hglobal Hin.
  assert (entry_of ENV_MAP (type id) = None) as Hentry.
  { unfold Object_prototype_names in Hin.
    repeat (apply elem_of_cons in Hin as [-> | Hin]; [reflexivity|]).
    by apply elem_of_nil in Hin. }
  destruct (get_cases id e)
    as [[Hs _] | [(_ & _ & Hout & _) | [(_ & _ & _ & Hrun) | (_ & vars & found & Hsome & _)]]];
    [done | done | exact Hrun | congruence].
Qed.

(** [get {type: 'constructor'}] passes [if (!envVars)] and throws. *)
Example get_constructor_throws :
  EnvironmentBackend.get (global_id "constructor") env_with_craft_key =
    (Thrown not_iterable, env_with_craft_key).
Proof. reflexivity. Qed.

(** Away from the inherited names, [get] returns, reads only, and its
    result is determined by the three tests of the source, in their
    order. *)
Lemma get_run (id : CredentialId) (e : env) :
  scoped id \/ type id ∉ Object_prototype_names ->
  exists r, EnvironmentBackend.get id e = (Returned r, e) /\
    (r = None <->
       scoped id \/ entry_of ENV_MAP (type id) = None \/
       exists envVars, entry_of ENV_MAP (type id) = Some envVars /\
                       none_nonempty e envVars) /\
    (forall v, r = Some {| value := v |} <->
       ~ scoped id /\
       exists envVars, entry_of ENV_MAP (type id) = Some envVars /\
                       first_nonempty e envVars v).
Proof.
  intros Hok.
  destruct (get_cases id e)
    as [[Hs Hrun] | [(Hglobal & Hentry & Hout & Hrun) |
        [(Hglobal & _ & Hin & _) | (Hglobal & envVars & found & Hentry & _ & Hfound & Hrun)]]].
  - exists None. split; [exact Hrun|]. split.
    + split; [by left | done].
    + intros v. split; [discriminate | tauto].
  - exists None. split; [exact Hrun|]. split.
    + split; [by right; left | done].
    + intros v. split; [discriminate | intros (_ & vars & Hvars & _); congruence].
  - by destruct Hok.
  - exists (stored found). split; [exact Hrun|].
    destruct found as [v|];
      [change (stored (Some v)) with (Some {| value := v |})
      | change (stored None) with (@None StoredCredential)].
    + split.
      * split; [discriminate|].
        intros [Hs | [Hnone | (vars & Hvars & Hnone)]]; [done | congruence |].
        assert (vars = envVars) as -> by congruence.
        by destruct (first_nonempty_not_none e envVars v).
      * intros w. split.
        -- intros [= <-]. split; [done|]. by exists envVars.
        -- intros (_ & vars & Hvars & Hw).
           assert (vars = envVars) as -> by congruence.
           by rewrite (first_nonempty_unique e envVars v w).
    + split.
      * split; [|done]. intros _. right; right. by exists envVars.
      * intros w. split; [discriminate|]. intros (_ & vars & Hvars & Hw).
        assert (vars = envVars) as -> by congruence.
        by destruct (first_nonempty_not_none e envVars w).
Qed.

(** Whatever the type, [get] returns [{ value: v }] exactly when [id] is
    not scoped and [v] is the first non-empty value of its own entry. *)
Lemma get_value_iff (id : CredentialId) (e : env) (v : string) :
  result_of (EnvironmentBackend.get id) e = Returned (Some {| value := v |}) <->
  ~ scoped id /\
  exists envVars, entry_of ENV_MAP (type id) = Some envVars /\
                  first_nonempty e envVars v.
Proof.
  unfold result_of.
  destruct (get_cases id e)
    as [[Hs Hrun] | [(Hglobal & Hentry & Hout & Hrun) |
        [(Hglobal & Hentry & Hin & Hrun) |
         (Hglobal & envVars & found & Hentry & _ & Hfound & Hrun)]]];
    rewrite Hrun; cbn [fst].
  - split; [discriminate | tauto].
  - split; [discriminate | intros (_ & vars & Hvars & _); congruence].
  - split; [discriminate | intros (_ & vars & Hvars & _); congruence].
  - destruct found as [w|];
      [change (stored (Some w)) with (Some {| value := w |})
      | change (stored None) with (@None StoredCredential)].
    + split.
      * intros [= ->]. split; [done|]. by exists envVars.
      * intros (_ & vars & Hvars & Hv).
        assert (vars = envVars) as -> by congruence.
        by rewrite (first_nonempty_unique e envVars w v).
    + split; [discriminate|]. intros (_ & vars & Hvars & Hv).
      assert (vars = envVars) as -> by congruence.
      by destruct (first_nonempty_not_none e envVars v).
Qed.

(** ** The Configurator *)

(** C1. Whatever the environment was, [setAuthEnvironment auth] returns
    normally and leaves each of the four managed slots holding exactly
    the entry the active variant implies for it, so nothing of the earlier
    environment survives in a managed slot; every managed slot that does not
    belong to the active variant is unset; and for an [oauth_token]
    credential the OAuth slot holds the token while the API-key,
    proxy-auth-token and base-URL slots are unset. *)
Theorem setAuthEnvironment_exclusive (auth : AuthCredentials) (e : env) :
  result_of (setAuthEnvironment auth) e = Returned tt /\
  (forall slot, slot ∈ managed_slots ->
     env_after (setAuthEnvironment auth) e !! slot = implied_entry auth slot) /\
  (forall slot, slot ∈ managed_slots -> slot ∉ variant_slots auth ->
     env_after (setAuthEnvironment auth) e !! slot = None) /\
  (forall slot e0, slot ∈ managed_slots ->
     env_after (setAuthEnvironment auth) e !! slot =
     env_after (setAuthEnvironment auth) e0 !! slot) /\
  (forall c, auth = oauth_token c ->
     env_after (setAuthEnvironment auth) e !! CLAUDE_CODE_OAUTH_TOKEN =
       Some (ClaudeMaxCredentials.oauthToken c) /\
     env_after (setAuthEnvironment auth) e !! ANTHROPIC_API_KEY = None /\
     env_after (setAuthEnvironment auth) e !! ANTHROPIC_AUTH_TOKEN = None /\
     env_after (setAuthEnvironment auth) e !! ANTHROPIC_BASE_URL = None).
Proof.
  split; [|split; [|split; [|split]]].
  - destruct (setAuthEnvironment_run auth e) as (e' & Hrun & _).
    unfold result_of. by rewrite Hrun.
  - intros slot Hin. by apply setAuthEnvironment_slot.
  - intros slot Hin Hout. rewrite setAuthEnvironment_slot by done.
    destruct auth; simpl in *; rewrite !not_elem_of_cons in Hout;
      repeat case_decide; tauto.
  - intros slot e0 Hin. by rewrite !setAuthEnvironment_slot.
  - intros c ->. rewrite !setAuthEnvironment_slot by auto. done.
Qed.

(** C4, as stated, fails: [authToken] is provided (as the empty string),
    yet the proxy-auth-token slot is not populated afterwards. *)
Lemma proxy_empty_authToken_not_populated :
  provided (ProxyCredentials.authToken proxy_with_empty_authToken) /\
  ~ populated
      (env_after (setAuthEnvironment (proxy proxy_with_empty_authToken)) ∅)
      ANTHROPIC_AUTH_TOKEN.
Proof.
  split.
  - by eexists.
  - intros [v Hv]. vm_compute in Hv. discriminate.
Qed.

(** C4, amended. For every proxy credential, after [setAuthEnvironment]
    the base-URL slot holds the input's [baseUrl] (the empty string
    included), and the proxy-auth-token slot and the API-key slot are each
    populated if and only if the corresponding optional field was provided
    as a non-empty string, in which case the slot holds that string. *)
Theorem setAuthEnvironment_proxy (c : ProxyCredentials.t) (e : env) :
  let e' := env_after (setAuthEnvironment (proxy c)) e in
  e' !! ANTHROPIC_BASE_URL = Some (ProxyCredentials.baseUrl c) /\
  (populated e' ANTHROPIC_AUTH_TOKEN <->
     exists v, ProxyCredentials.authToken c = Some v /\ v <> "") /\
  (populated e' ANTHROPIC_API_KEY <->
     exists v, ProxyCredentials.apiKey c = Some v /\ v <> "") /\
  (forall v, e' !! ANTHROPIC_AUTH_TOKEN = Some v <->
     ProxyCredentials.authToken c = Some v /\ v <> "") /\
  (forall v, e' !! ANTHROPIC_API_KEY = Some v <->
     ProxyCredentials.apiKey c = Some v /\ v <> "").
Proof.
  intros e'. subst e'. unfold populated, is_Some.
  rewrite !setAuthEnvironment_slot by auto. simpl.
  split; [reflexivity|].
  split; [|split; [|split]]; try (intros v; apply optional_entry_Some);
    split; intros [v Hv]; exists v; by apply optional_entry_Some.
Qed.

(** C8, as stated, fails: [baseUrl] is present (as the empty string), yet
    the base-URL slot does not hold it afterwards: the slot is unset. *)
Lemma api_key_empty_baseUrl_not_written :
  ApiKeyCredentials.baseUrl api_key_with_empty_baseUrl = Some "" /\
  env_after (setAuthEnvironment (api_key api_key_with_empty_baseUrl)) ∅
    !! ANTHROPIC_BASE_URL = None /\
  env_after (setAuthEnvironment (api_key api_key_with_empty_baseUrl)) ∅
    !! ANTHROPIC_BASE_URL <>
  ApiKeyCredentials.baseUrl api_key_with_empty_baseUrl.
Proof. vm_compute. repeat split; discriminate. Qed.

(** C8, amended. For every api_key credential, after
    [setAuthEnvironment] the OAuth slot and the proxy-auth-token slot are
    unset, the API-key slot holds the input's [apiKey], and the base-URL
    slot holds the input's [baseUrl] when that field is present and
    non-empty and is unset when the field is absent or the empty string. *)
Theorem setAuthEnvironment_api_key (c : ApiKeyCredentials.t) (e : env) :
  let e' := env_after (setAuthEnvironment (api_key c)) e in
  e' !! CLAUDE_CODE_OAUTH_TOKEN = None /\
  e' !! ANTHROPIC_AUTH_TOKEN = None /\
  e' !! ANTHROPIC_API_KEY = Some (ApiKeyCredentials.apiKey c) /\
  (forall u, ApiKeyCredentials.baseUrl c = Some u -> u <> "" ->
     e' !! ANTHROPIC_BASE_URL = Some u) /\
  (ApiKeyCredentials.baseUrl c = None \/ ApiKeyCredentials.baseUrl c = Some "" ->
     e' !! ANTHROPIC_BASE_URL = None).
Proof.
  intros e'. subst e'. rewrite !setAuthEnvironment_slot by auto. simpl.
  repeat split.
  - intros u Hu Hne. by apply optional_entry_Some.
  - intros [-> | ->]; reflexivity.
Qed.

(** C9. [clearAuthEnvironment] returns normally with all four managed
    slots unset, whatever they held, and running it twice in succession
    leaves the same environment as running it once. *)
Theorem clearAuthEnvironment_idempotent (e : env) :
  result_of clearAuthEnvironment e = Returned tt /\
  (forall slot, slot ∈ managed_slots ->
     env_after clearAuthEnvironment e !! slot = None) /\
  (clearAuthEnvironment ;; clearAuthEnvironment) e = clearAuthEnvironment e /\
  env_after clearAuthEnvironment (env_after clearAuthEnvironment e) =
    env_after clearAuthEnvironment e.
Proof.
  assert (cleared (cleared e) = cleared e) as Hidem.
  { apply map_eq. intros name. destruct (decide (name ∈ managed_slots)) as [Hin|Hout].
    - by rewrite !cleared_managed.
    - by rewrite cleared_other. }
  split; [reflexivity|]. split; [|split].
  - intros slot Hin. by apply cleared_managed.
  - unfold bind. rewrite !clearAuthEnvironment_run. by rewrite Hidem.
  - unfold env_after. rewrite !clearAuthEnvironment_run. simpl. exact Hidem.
Qed.

(** C10. [setAuthEnvironment] and [clearAuthEnvironment] leave every
    variable other than the four managed slots as it was; in particular
    [CRAFT_ANTHROPIC_API_KEY] and [CRAFT_CLAUDE_OAUTH_TOKEN] are neither
    written nor cleared. *)
Theorem configurator_frame (auth : AuthCredentials) (e : env) :
  (forall name, name ∉ managed_slots ->
     env_after (setAuthEnvironment auth) e !! name = e !! name /\
     env_after clearAuthEnvironment e !! name = e !! name) /\
  env_after (setAuthEnvironment auth) e !! CRAFT_ANTHROPIC_API_KEY =
    e !! CRAFT_ANTHROPIC_API_KEY /\
  env_after (setAuthEnvironment auth) e !! CRAFT_CLAUDE_OAUTH_TOKEN =
    e !! CRAFT_CLAUDE_OAUTH_TOKEN /\
  env_after clearAuthEnvironment e !! CRAFT_ANTHROPIC_API_KEY =
    e !! CRAFT_ANTHROPIC_API_KEY /\
  env_after clearAuthEnvironment e !! CRAFT_CLAUDE_OAUTH_TOKEN =
    e !! CRAFT_CLAUDE_OAUTH_TOKEN.
Proof.
  assert (forall name, name ∉ managed_slots ->
     env_after (setAuthEnvironment auth) e !! name = e !! name /\
     env_after clearAuthEnvironment e !! name = e !! name) as Hframe.
  { intros name Hout. split.
    - destruct (setAuthEnvironment_run auth e) as (e' & Hrun & Hlook).
      unfold env_after. rewrite Hrun. simpl. rewrite Hlook. by rewrite decide_False.
    - by apply cleared_other. }
  assert (CRAFT_ANTHROPIC_API_KEY ∉ managed_slots) as H1 by (by apply not_managed).
  assert (CRAFT_CLAUDE_OAUTH_TOKEN ∉ managed_slots) as H2 by (by apply not_managed).
  split; [exact Hframe|].
  destruct (Hframe _ H1) as [-> ->]. destruct (Hframe _ H2) as [-> ->]. done.
Qed.

(** ** The Backend *)

(** C3, as stated, fails: [id.workspaceId] is set (to the empty string),
    yet [get] does not return null, it returns the mapped value. *)
Lemma get_empty_workspaceId_not_null :
  is_Some (workspaceId id_with_empty_workspace) /\
  result_of (EnvironmentBackend.get id_with_empty_workspace) env_with_craft_key =
    Returned (Some {| value := "a" |}) /\
  result_of (EnvironmentBackend.get id_with_empty_workspace) env_with_craft_key <>
    Returned None.
Proof.
  split; [by eexists|]. split; [reflexivity|]. vm_compute. discriminate.
Qed.

(** C3, amended. For every environment and every id that is scoped or
    whose type is not the name of a member inherited from
    [Object.prototype], [get id] never throws and leaves the environment as
    it was.  It returns null exactly when [id.workspaceId] is a non-empty
    string, or [id.type] has no entry in [ENV_MAP], or none of the mapped
    variables holds a non-empty value; otherwise (a [workspaceId] that is
    absent or the empty string included) it returns [{ value }] with the
    value of the first variable of the mapped list, in order, that holds a
    non-empty value.  With [CRAFT_ANTHROPIC_API_KEY = "a"] and
    [ANTHROPIC_API_KEY = "b"], [get {type: anthropic_api_key}] returns
    ["a"]. *)
Theorem EnvironmentBackend_get_fails_closed (id : CredentialId) (e : env) :
  scoped id \/ type id ∉ Object_prototype_names ->
  env_after (EnvironmentBackend.get id) e = e /\
  (exists r, result_of (EnvironmentBackend.get id) e = Returned r /\
     (r = None <->
        scoped id \/ entry_of ENV_MAP (type id) = None \/
        exists envVars, entry_of ENV_MAP (type id) = Some envVars /\
                        none_nonempty e envVars) /\
     (forall v, r = Some {| value := v |} <->
        ~ scoped id /\
        exists envVars, entry_of ENV_MAP (type id) = Some envVars /\
                        first_nonempty e envVars v)) /\
  (forall e0 : env,
     e0 !! CRAFT_ANTHROPIC_API_KEY = Some "a" ->
     e0 !! ANTHROPIC_API_KEY = Some "b" ->
     result_of (EnvironmentBackend.get (global_id "anthropic_api_key")) e0 =
       Returned (Some {| value := "a" |})).
Proof.
  intros Hok. destruct (get_run id e Hok) as (r & Hrun & Hnull & Hvalue).
  unfold env_after, result_of. rewrite Hrun. cbn [fst snd].
  split; [reflexivity|]. split; [by exists r|].
  intros e0 Hcraft Hplain.
  unfold EnvironmentBackend.get, ENV_MAP_at, bind, getenv. simpl.
  unfold bind, getenv. by rewrite Hcraft.
Qed.

Lemma EnvironmentBackend_get_fails_closed_witness :
  env_after (EnvironmentBackend.get (global_id "claude_oauth")) env_with_craft_key =
    env_with_craft_key /\
  (exists r,
     result_of (EnvironmentBackend.get (global_id "claude_oauth")) env_with_craft_key =
       Returned r /\
     (r = None <->
        scoped (global_id "claude_oauth") \/
        entry_of ENV_MAP (type (global_id "claude_oauth")) = None \/
        exists envVars,
          entry_of ENV_MAP (type (global_id "claude_oauth")) = Some envVars /\
          none_nonempty env_with_craft_key envVars) /\
     (forall v, r = Some {| value := v |} <->
        ~ scoped (global_id "claude_oauth") /\
        exists envVars,
          entry_of ENV_MAP (type (global_id "claude_oauth")) = Some envVars /\
          first_nonempty env_with_craft_key envVars v)) /\
  (forall e0 : env,
     e0 !! CRAFT_ANTHROPIC_API_KEY = Some "a" ->
     e0 !! ANTHROPIC_API_KEY = Some "b" ->
     result_of (EnvironmentBackend.get (global_id "anthropic_api_key")) e0 =
       Returned (Some {| value := "a" |})).
Proof.
  apply (EnvironmentBackend_get_fails_closed (global_id "claude_oauth") env_with_craft_key).
  right. unfold Object_prototype_names, global_id. cbn [type].
  rewrite !not_elem_of_cons. repeat split; try discriminate.
  apply not_elem_of_nil.
Defined.

(** C7. [set] throws the read-only error for every id and credential,
    [delete] returns [false] without throwing for every id, and neither
    changes the environment. *)
Theorem EnvironmentBackend_read_only
    (id : CredentialId) (credential : StoredCredential) (e : env) :
  result_of (EnvironmentBackend.set id credential) e =
    Thrown "Environment backend is read-only" /\
  env_after (EnvironmentBackend.set id credential) e = e /\
  result_of (EnvironmentBackend.delete id) e = Returned false /\
  env_after (EnvironmentBackend.delete id) e = e.
Proof.
  by repeat split.
Qed.

(** C5. [isProxyAuthConfigured] and [hasEnvProxyConfig] are the same
    query: on every environment both return the same boolean, which is
    [true] exactly when the base-URL slot is non-empty and the
    proxy-auth-token slot or the API-key slot is non-empty, and both leave
    the environment as it was. *)
Theorem proxy_predicates_agree (e : env) :
  isProxyAuthConfigured e = hasEnvProxyConfig e /\
  env_after isProxyAuthConfigured e = e /\
  env_after hasEnvProxyConfig e = e /\
  exists b,
    result_of isProxyAuthConfigured e = Returned b /\
    result_of hasEnvProxyConfig e = Returned b /\
    (b = true <->
       slot_nonempty e ANTHROPIC_BASE_URL /\
       (slot_nonempty e ANTHROPIC_AUTH_TOKEN \/ slot_nonempty e ANTHROPIC_API_KEY)).
Proof.
  split; [reflexivity|].
  unfold env_after, result_of, hasEnvProxyConfig, isProxyAuthConfigured, bind, getenv.
  pose proof (truthy_slot_nonempty e ANTHROPIC_BASE_URL) as Hbase.
  pose proof (truthy_slot_nonempty e ANTHROPIC_AUTH_TOKEN) as Htoken.
  pose proof (truthy_slot_nonempty e ANTHROPIC_API_KEY) as Hkey.
  destruct (truthy (e !! ANTHROPIC_BASE_URL)), (truthy (e !! ANTHROPIC_AUTH_TOKEN));
    simpl; (split; [reflexivity|]); (split; [reflexivity|]);
    eexists; (split; [reflexivity|]); (split; [reflexivity|]);
    destruct (truthy (e !! ANTHROPIC_API_KEY)); intuition congruence.
Qed.

(** C6. For every filter and environment, [list filter] does what
    [list ()] does, leaves the environment as it was, and returns, without
    repetition, exactly the identities [{ type }] with no [workspaceId]
    whose type has an entry in [ENV_MAP] with at least one variable holding
    a non-empty value. *)
Theorem EnvironmentBackend_list_exact (filter : option PartialCredentialId) (e : env) :
  EnvironmentBackend.list filter e = EnvironmentBackend.list None e /\
  env_after (EnvironmentBackend.list filter) e = e /\
  exists ids,
    result_of (EnvironmentBackend.list filter) e = Returned ids /\
    NoDup ids /\
    forall id, id ∈ ids <->
      workspaceId id = None /\
      exists envVars, entry_of ENV_MAP (type id) = Some envVars /\
        exists envVar, envVar ∈ envVars /\ slot_nonempty e envVar.
Proof.
  split; [reflexivity|].
  unfold env_after, result_of. rewrite list_run. cbn [fst snd].
  split; [reflexivity|]. eexists. split; [reflexivity|]. split.
  - apply NoDup_fmap_2; [apply _|].
    eapply sublist_NoDup; [apply ENV_MAP_keys_NoDup|].
    apply fmap_sublist, sublist_filter.
  - intros id. rewrite list_elem_of_fmap. split.
    + intros (name & -> & Hname). split; [reflexivity|].
      apply list_elem_of_fmap in Hname as ([key envVars] & -> & Hentry).
      unfold global_id. cbn [type fst].
      apply list_elem_of_filter in Hentry as [Hhas Hin].
      exists envVars. split.
      * by rewrite ENV_MAP_entry.
      * by apply has_value_spec in Hhas.
    + intros (Hglobal & envVars & Hentry & Hvalue).
      exists (type id). split.
      * destruct id as [name ws]. simpl in *. by subst ws.
      * apply list_elem_of_fmap. exists (type id, envVars). split; [reflexivity|].
        apply list_elem_of_filter. split.
        -- by apply has_value_spec.
        -- by rewrite <- ENV_MAP_entry.
Qed.

(** With [CRAFT_ANTHROPIC_API_KEY = "a"] and [ANTHROPIC_API_KEY = "b"] the
    tool-specific variable wins; with only the generic one set, it is
    used. *)
Example get_prefers_craft_key :
  result_of (EnvironmentBackend.get (global_id "anthropic_api_key"))
    (<[ CRAFT_ANTHROPIC_API_KEY := "a" ]> ({[ ANTHROPIC_API_KEY := "b" ]})) =
    Returned (Some {| value := "a" |}).
Proof. reflexivity. Qed.

Example get_falls_back_to_plain_key :
  result_of (EnvironmentBackend.get (global_id "anthropic_api_key"))
    (<[ CRAFT_ANTHROPIC_API_KEY := "" ]> ({[ ANTHROPIC_API_KEY := "b" ]})) =
    Returned (Some {| value := "b" |}).
Proof. reflexivity. Qed.

(** The truth table of the proxy query. *)
Example proxy_query_truth_table :
  result_of isProxyAuthConfigured
    (<[ ANTHROPIC_BASE_URL := "https://proxy.example" ]>
       ({[ ANTHROPIC_AUTH_TOKEN := "token" ]})) = Returned true /\
  result_of isProxyAuthConfigured
    (<[ ANTHROPIC_BASE_URL := "https://proxy.example" ]>
       ({[ ANTHROPIC_API_KEY := "key" ]})) = Returned true /\
  result_of isProxyAuthConfigured
    ({[ ANTHROPIC_BASE_URL := "https://proxy.example" ]}) = Returned false /\
  result_of isProxyAuthConfigured
    ({[ ANTHROPIC_AUTH_TOKEN := "token" ]}) = Returned false.
Proof. repeat split. Qed.

(** With only [ANTHROPIC_AUTH_TOKEN] set, [list] returns
    [[{ type: 'anthropic_auth_token' }]]. *)
Example list_only_auth_token :
  result_of (EnvironmentBackend.list None) ({[ ANTHROPIC_AUTH_TOKEN := "token" ]}) =
    Returned [global_id "anthropic_auth_token"].
Proof. reflexivity. Qed.



(** * Further properties *)

(** ** Mode switches compose *)

Lemma setAuthEnvironment_agree (auth : AuthCredentials) (e1 e2 : env) :
  (forall name, name ∉ managed_slots -> e1 !! name = e2 !! name) ->
  setAuthEnvironment auth e1 = setAuthEnvironment auth e2.
Proof.
  intros Hagree.
  destruct (setAuthEnvironment_run auth e1) as (e1' & -> & Hlook1).
  destruct (setAuthEnvironment_run auth e2) as (e2' & -> & Hlook2).
  f_equal. apply map_eq. intros name. rewrite Hlook1, Hlook2.
  case_decide; [reflexivity | by apply Hagree].
Qed.

(** X1. Switching the auth mode twice in a row leaves exactly the
    environment the second switch alone would leave: nothing of the first
    credential survives. *)
Theorem setAuthEnvironment_last_wins (first second : AuthCredentials) (e : env) :
  (setAuthEnvironment first ;; setAuthEnvironment second) e =
    setAuthEnvironment second e.
Proof.
  unfold bind. destruct (setAuthEnvironment_run first e) as (e1 & -> & Hlook).
  apply setAuthEnvironment_agree. intros name Hout.
  rewrite Hlook. by rewrite decide_False.
Qed.

(** X2. Clearing after a switch undoes the switch completely (the
    environment is the one clearing alone leaves), and clearing before a
    switch changes nothing about the switch. *)
Theorem clearAuthEnvironment_absorbs (auth : AuthCredentials) (e : env) :
  (setAuthEnvironment auth ;; clearAuthEnvironment) e = clearAuthEnvironment e /\
  (clearAuthEnvironment ;; setAuthEnvironment auth) e = setAuthEnvironment auth e.
Proof.
  split; unfold bind.
  - destruct (setAuthEnvironment_run auth e) as (e1 & -> & Hlook).
    rewrite !clearAuthEnvironment_run. f_equal. apply map_eq. intros name.
    destruct (decide (name ∈ managed_slots)) as [Hin | Hout].
    + by rewrite !cleared_managed.
    + rewrite !cleared_other by done. rewrite Hlook. by rewrite decide_False.
  - rewrite clearAuthEnvironment_run. apply setAuthEnvironment_agree.
    intros name Hout. by apply cleared_other.
Qed.

(** ** What the proxy query sees after a switch *)

Lemma truthy_given (field : option string) : truthy field = true <-> given field.
Proof.
  unfold given. destruct field as [s|]; simpl.
  - rewrite nonempty_true. split.
    + intros Hs. by exists s.
    + intros (v & [= ->] & Hv). done.
  - split; [discriminate | intros (v & Hv & _); discriminate].
Qed.

Lemma truthy_optional_entry (field : option string) :
  truthy (optional_entry field) = truthy field.
Proof. unfold optional_entry. by destruct (truthy field) eqn:Hfield. Qed.

Lemma isProxyAuthConfigured_run (e : env) :
  isProxyAuthConfigured e =
    (Returned (truthy (e !! ANTHROPIC_BASE_URL) &&
               (truthy (e !! ANTHROPIC_AUTH_TOKEN) || truthy (e !! ANTHROPIC_API_KEY))),
     e).
Proof.
  unfold isProxyAuthConfigured, bind, getenv.
  by destruct (truthy (e !! ANTHROPIC_BASE_URL)), (truthy (e !! ANTHROPIC_AUTH_TOKEN)).
Qed.

(** X3. After a switch to proxy mode the proxy query answers [true]
    exactly when the credential's [baseUrl] is non-empty and its
    [authToken] or its [apiKey] is a non-empty string, whatever the
    environment held before. *)
Theorem proxy_mode_detected (c : ProxyCredentials.t) (e : env) :
  exists b,
    result_of isProxyAuthConfigured (env_after (setAuthEnvironment (proxy c)) e) =
      Returned b /\
    (b = true <->
       ProxyCredentials.baseUrl c <> "" /\
       (given (ProxyCredentials.authToken c) \/ given (ProxyCredentials.apiKey c))).
Proof.
  unfold result_of at 1. rewrite isProxyAuthConfigured_run.
  rewrite !setAuthEnvironment_slot by auto. simpl.
  rewrite !truthy_optional_entry. eexists. split; [reflexivity|].
  rewrite andb_true_iff, orb_true_iff, nonempty_true, !truthy_given. tauto.
Qed.

(** X4. After a switch to api_key mode the proxy query answers [true]
    exactly when [apiKey] is non-empty and [baseUrl] is a non-empty string
    (an API key with a custom endpoint counts as a proxy configuration);
    after a switch to oauth_token mode it always answers [false]. *)
Theorem direct_modes_detected (e : env) :
  (forall c : ApiKeyCredentials.t,
     exists b,
       result_of isProxyAuthConfigured (env_after (setAuthEnvironment (api_key c)) e) =
         Returned b /\
       (b = true <->
          ApiKeyCredentials.apiKey c <> "" /\ given (ApiKeyCredentials.baseUrl c))) /\
  (forall c : ClaudeMaxCredentials.t,
     result_of isProxyAuthConfigured (env_after (setAuthEnvironment (oauth_token c)) e) =
       Returned false).
Proof.
  split; intros c; unfold result_of at 1; rewrite isProxyAuthConfigured_run;
    rewrite !setAuthEnvironment_slot by auto; simpl.
  - rewrite truthy_optional_entry. eexists. split; [reflexivity|].
    rewrite andb_true_iff, nonempty_true, truthy_given. tauto.
  - reflexivity.
Qed.

(** ** What the Backend resolves after a switch *)

Lemma getEnvValue_agree (envVars : list string) (e1 e2 : env) :
  (forall envVar, envVar ∈ envVars -> e1 !! envVar = e2 !! envVar) ->
  result_of (getEnvValue envVars) e1 = result_of (getEnvValue envVars) e2.
Proof.
  induction envVars as [| envVar rest IH]; intros Hagree; [reflexivity|].
  unfold result_of in *. cbn [getEnvValue]. unfold bind, getenv.
  rewrite (Hagree envVar) by constructor.
  destruct (truthy (e2 !! envVar)); [reflexivity|].
  apply IH. intros x Hx. apply Hagree. by constructor.
Qed.

Lemma get_agree (id : CredentialId) (e1 e2 : env) :
  (forall envVars, entry_of ENV_MAP (type id) = Some envVars ->
     forall envVar, envVar ∈ envVars -> e1 !! envVar = e2 !! envVar) ->
  result_of (EnvironmentBackend.get id) e1 = result_of (EnvironmentBackend.get id) e2.
Proof.
  intros Hagree. unfold result_of, EnvironmentBackend.get, ENV_MAP_at.
  destruct (truthy (workspaceId id)); [reflexivity|].
  destruct (entry_of ENV_MAP (type id)) as [envVars|];
    [|by destruct (decide (type id ∈ Object_prototype_names))].
  pose proof (getEnvValue_agree envVars e1 e2 (Hagree envVars eq_refl)) as Hsame.
  unfold result_of in Hsame. unfold bind.
  destruct (getEnvValue_run envVars e1) as (r1 & Hrun1 & _).
  destruct (getEnvValue_run envVars e2) as (r2 & Hrun2 & _).
  rewrite Hrun1, Hrun2 in *. cbn [fst] in Hsame. injection Hsame as ->.
  destruct r2 as [v|]; [|reflexivity]. by destruct (nonempty v).
Qed.

Lemma get_global_run (name : string) (envVars : list string) (e : env)
    (found : option string) :
  entry_of ENV_MAP name = Some envVars ->
  getEnvValue envVars e = (Returned found, e) ->
  EnvironmentBackend.get (global_id name) e = (Returned (stored found), e).
Proof.
  intros Hentry Hrun.
  unfold EnvironmentBackend.get, ENV_MAP_at, global_id. cbn [workspaceId type truthy].
  rewrite Hentry. unfold bind. rewrite Hrun.
  destruct (getEnvValue_run envVars e) as (r & Hrun' & Hr).
  assert (r = found) as -> by congruence.
  destruct found as [v|]; [|reflexivity].
  assert (nonempty v = true) as ->; [|reflexivity].
  apply nonempty_true. by destruct Hr as (_ & _ & _ & _ & Hv & _).
Qed.

Lemma setAuthEnvironment_other (auth : AuthCredentials) (e : env) (name : string) :
  name ∉ managed_slots ->
  env_after (setAuthEnvironment auth) e !! name = e !! name.
Proof.
  intros Hout. destruct (setAuthEnvironment_run auth e) as (e' & Hrun & Hlook).
  unfold env_after. rewrite Hrun. cbn [snd]. rewrite Hlook. by rewrite decide_False.
Qed.

Lemma CRAFT_ANTHROPIC_API_KEY_unmanaged : CRAFT_ANTHROPIC_API_KEY ∉ managed_slots.
Proof. by apply not_managed. Qed.

Lemma CRAFT_CLAUDE_OAUTH_TOKEN_unmanaged : CRAFT_CLAUDE_OAUTH_TOKEN ∉ managed_slots.
Proof. by apply not_managed. Qed.

(** X5. The Backend resolves the [claude_oauth] credential from
    [CRAFT_CLAUDE_OAUTH_TOKEN] only, which the Configurator never writes:
    for every id of that type, [get] answers after any switch, and after a
    clear, exactly what it answered before.  So a switch to oauth_token mode
    does not make its token visible to the Backend: with
    [CRAFT_CLAUDE_OAUTH_TOKEN] empty, [get] still returns null. *)
Theorem claude_oauth_untouched_by_configurator
    (auth : AuthCredentials) (workspace : option string) (e : env) :
  let id := {| type := "claude_oauth"; workspaceId := workspace |} in
  result_of (EnvironmentBackend.get id) (env_after (setAuthEnvironment auth) e) =
    result_of (EnvironmentBackend.get id) e /\
  result_of (EnvironmentBackend.get id) (env_after clearAuthEnvironment e) =
    result_of (EnvironmentBackend.get id) e /\
  (forall c, auth = oauth_token c ->
     ~ slot_nonempty e CRAFT_CLAUDE_OAUTH_TOKEN ->
     result_of (EnvironmentBackend.get id) (env_after (setAuthEnvironment auth) e) =
       Returned None).
Proof.
  intros id.
  assert (result_of (EnvironmentBackend.get id) (env_after (setAuthEnvironment auth) e) =
          result_of (EnvironmentBackend.get id) e) as Hset.
  { apply get_agree. subst id. cbn [type]. rewrite entry_claude_oauth.
    intros envVars [= <-] envVar Hin. apply list_elem_of_singleton in Hin as ->.
    apply setAuthEnvironment_other, CRAFT_CLAUDE_OAUTH_TOKEN_unmanaged. }
  split; [exact Hset|]. split.
  - apply get_agree. subst id. cbn [type]. rewrite entry_claude_oauth.
    intros envVars [= <-] envVar Hin. apply list_elem_of_singleton in Hin as ->.
    unfold env_after. rewrite clearAuthEnvironment_run.
    apply cleared_other, CRAFT_CLAUDE_OAUTH_TOKEN_unmanaged.
  - intros c _ Hempty. rewrite Hset.
    assert (scoped id \/ type id ∉ Object_prototype_names) as Hok.
    { right. apply (own_key_not_inherited _ _ entry_claude_oauth). }
    destruct (get_run id e Hok) as (r & Hrun & Hnull & _).
    unfold result_of. rewrite Hrun. cbn [fst]. f_equal. apply Hnull.
    right; right. subst id. cbn [type]. rewrite entry_claude_oauth.
    eexists. split; [reflexivity|].
    intros envVar Hin. by apply list_elem_of_singleton in Hin as ->.
Qed.

(** X6. After a switch to api_key mode, [get {type: anthropic_api_key}]
    returns the tool-specific [CRAFT_ANTHROPIC_API_KEY] when that holds a
    non-empty value; otherwise it returns the [apiKey] just configured when
    that is non-empty, and null when it is the empty string. *)
Theorem api_key_mode_resolved (c : ApiKeyCredentials.t) (e : env) :
  let e' := env_after (setAuthEnvironment (api_key c)) e in
  (forall v, e !! CRAFT_ANTHROPIC_API_KEY = Some v -> v <> "" ->
     result_of (EnvironmentBackend.get (global_id "anthropic_api_key")) e' =
       Returned (Some {| value := v |})) /\
  (~ slot_nonempty e CRAFT_ANTHROPIC_API_KEY -> ApiKeyCredentials.apiKey c <> "" ->
     result_of (EnvironmentBackend.get (global_id "anthropic_api_key")) e' =
       Returned (Some {| value := ApiKeyCredentials.apiKey c |})) /\
  (~ slot_nonempty e CRAFT_ANTHROPIC_API_KEY -> ApiKeyCredentials.apiKey c = "" ->
     result_of (EnvironmentBackend.get (global_id "anthropic_api_key")) e' =
       Returned None).
Proof.
  intros e'.
  assert (e' !! CRAFT_ANTHROPIC_API_KEY = e !! CRAFT_ANTHROPIC_API_KEY) as Hcraft.
  { apply setAuthEnvironment_other, CRAFT_ANTHROPIC_API_KEY_unmanaged. }
  assert (e' !! ANTHROPIC_API_KEY = Some (ApiKeyCredentials.apiKey c)) as Hkey.
  { subst e'. by rewrite setAuthEnvironment_slot by auto. }
  assert (forall found,
            getEnvValue [CRAFT_ANTHROPIC_API_KEY; ANTHROPIC_API_KEY] e' = (Returned found, e') ->
            result_of (EnvironmentBackend.get (global_id "anthropic_api_key")) e' =
              Returned (stored found)) as Hget.
  { intros found Hrun. unfold result_of.
    by rewrite (get_global_run _ _ _ _ entry_anthropic_api_key Hrun). }
  clearbody e'. split; [|split].
  - intros v Hv Hne. apply (Hget (Some v)).
    cbn [getEnvValue]. unfold bind, getenv. rewrite Hcraft, Hv. cbn [truthy].
    apply nonempty_true in Hne. by rewrite Hne.
  - intros Hempty Hne. apply truthy_false_slot in Hempty.
    apply (Hget (Some (ApiKeyCredentials.apiKey c))).
    cbn [getEnvValue]. unfold bind, getenv. rewrite Hcraft, Hempty, Hkey. cbn [truthy].
    apply nonempty_true in Hne. by rewrite Hne.
  - intros Hempty Hnokey. apply truthy_false_slot in Hempty.
    apply (Hget None).
    cbn [getEnvValue]. unfold bind, getenv. rewrite Hcraft, Hempty, Hkey, Hnokey.
    reflexivity.
Qed.

(** X7. A switch to proxy mode, read back through the Backend's
    passthrough functions: [getEnvBaseUrl] returns the credential's
    [baseUrl] (the empty string included), [getEnvAuthToken] returns the
    [authToken] when it is a non-empty string and [undefined] otherwise, and
    [get {type: anthropic_auth_token}] returns [{ value: authToken }] in the
    first case and null in the second. *)
Theorem proxy_mode_read_back (c : ProxyCredentials.t) (e : env) :
  let e' := env_after (setAuthEnvironment (proxy c)) e in
  result_of getEnvBaseUrl e' = Returned (Some (ProxyCredentials.baseUrl c)) /\
  result_of getEnvAuthToken e' =
    Returned (optional_entry (ProxyCredentials.authToken c)) /\
  result_of (EnvironmentBackend.get (global_id "anthropic_auth_token")) e' =
    Returned (stored (optional_entry (ProxyCredentials.authToken c))) /\
  (forall v, optional_entry (ProxyCredentials.authToken c) = Some v <->
             ProxyCredentials.authToken c = Some v /\ v <> "").
Proof.
  intros e'.
  assert (e' !! ANTHROPIC_BASE_URL = Some (ProxyCredentials.baseUrl c)) as Hbase.
  { subst e'. by rewrite setAuthEnvironment_slot by auto. }
  assert (e' !! ANTHROPIC_AUTH_TOKEN = optional_entry (ProxyCredentials.authToken c))
    as Htoken.
  { subst e'. by rewrite setAuthEnvironment_slot by auto. }
  clearbody e'. unfold result_of, getEnvBaseUrl, getEnvAuthToken, getenv. cbn [fst].
  rewrite Hbase, Htoken. split; [reflexivity|]. split; [reflexivity|]. split.
  - rewrite (get_global_run _ _ _ (optional_entry (ProxyCredentials.authToken c))
               entry_anthropic_auth_token); [reflexivity|].
    cbn [getEnvValue]. unfold bind, getenv. rewrite Htoken, truthy_optional_entry.
    unfold optional_entry. by destruct (truthy (ProxyCredentials.authToken c)).
  - intros v. apply optional_entry_Some.
Qed.

(** ** The Backend on its own *)

Lemma get_found (id : CredentialId) (e : env) :
  (exists credential,
     result_of (EnvironmentBackend.get id) e = Returned (Some credential)) <->
  ~ scoped id /\
  exists envVars, entry_of ENV_MAP (type id) = Some envVars /\
    exists envVar, envVar ∈ envVars /\ slot_nonempty e envVar.
Proof.
  split.
  - intros ([v] & Hrun).
    destruct (proj1 (get_value_iff id e v) Hrun) as (Hglobal & envVars & Hentry & Hfirst).
    split; [exact Hglobal|]. exists envVars. split; [exact Hentry|].
    destruct Hfirst as (i & x & Hi & Hx & Hv & _). exists x. split.
    + apply list_elem_of_lookup. by exists i.
    + by exists v.
  - intros (Hglobal & envVars & Hentry & x & Hx & Hslot).
    destruct (getEnvValue_run envVars e) as ([v|] & _ & Hfound).
    + exists {| value := v |}. apply get_value_iff. split; [exact Hglobal|].
      by exists envVars.
    + by destruct (Hfound x Hx).
Qed.

Lemma list_elem (e : env) (id : CredentialId) :
  id ∈ (global_id <$> (base.filter (fun entry => has_value e entry = true) ENV_MAP).*1) <->
  workspaceId id = None /\
  exists envVars, entry_of ENV_MAP (type id) = Some envVars /\
    exists envVar, envVar ∈ envVars /\ slot_nonempty e envVar.
Proof.
  rewrite list_elem_of_fmap. split.
  - intros (name & -> & Hname). split; [reflexivity|].
    apply list_elem_of_fmap in Hname as ([key envVars] & -> & Hentry).
    apply list_elem_of_filter in Hentry as [Hhas Hin].
    unfold global_id. cbn [type fst]. exists envVars. split.
    + by rewrite ENV_MAP_entry.
    + by apply has_value_spec in Hhas.
  - intros (Hglobal & envVars & Hentry & Hvalue). exists (type id). split.
    + destruct id as [name ws]. cbn [workspaceId type] in *. by subst ws.
    + apply list_elem_of_fmap. exists (type id, envVars). split; [reflexivity|].
      apply list_elem_of_filter. split.
      * by apply has_value_spec.
      * by rewrite <- ENV_MAP_entry.
Qed.

(** X8. [list] and [get] agree: an identity is in the result of [list]
    exactly when it has no [workspaceId] and [get] on it returns a
    credential rather than null. *)
Theorem list_lists_what_get_finds
    (filter : option PartialCredentialId) (id : CredentialId) (e : env) :
  exists ids,
    result_of (EnvironmentBackend.list filter) e = Returned ids /\
    (id ∈ ids <->
       workspaceId id = None /\
       exists credential,
         result_of (EnvironmentBackend.get id) e = Returned (Some credential)).
Proof.
  unfold result_of at 1. rewrite list_run. cbn [fst]. eexists. split; [reflexivity|].
  rewrite list_elem, get_found. split.
  - intros (Hglobal & Hentry). split; [exact Hglobal|]. split; [|exact Hentry].
    intros (w & Hw & _). congruence.
  - tauto.
Qed.

(** X9. Whatever [get] returns other than null is never the empty
    string, and it is the value some variable mapped to [id.type] holds
    in the environment. *)
Theorem get_returns_a_mapped_value
    (id : CredentialId) (e : env) (credential : StoredCredential) :
  result_of (EnvironmentBackend.get id) e = Returned (Some credential) ->
  value credential <> "" /\
  exists envVars envVar,
    entry_of ENV_MAP (type id) = Some envVars /\ envVar ∈ envVars /\
    e !! envVar = Some (value credential).
Proof.
  destruct credential as [v]. cbn [value]. intros Hrun.
  destruct (proj1 (get_value_iff id e v) Hrun)
    as (_ & envVars & Hentry & i & x & Hi & Hx & Hv & _).
  split; [exact Hv|]. exists envVars, x. split; [exact Hentry|]. split; [|exact Hx].
  apply list_elem_of_lookup. by exists i.
Qed.

Lemma get_returns_a_mapped_value_witness :
  value {| value := "token" |} <> "" /\
  exists envVars envVar,
    entry_of ENV_MAP (type (global_id "anthropic_auth_token")) = Some envVars /\
    envVar ∈ envVars /\
    env_with_proxy !! envVar = Some (value {| value := "token" |}).
Proof.
  apply (get_returns_a_mapped_value (global_id "anthropic_auth_token") env_with_proxy).
  reflexivity.
Defined.

Lemma mapped_vars_eq :
  mapped_vars =
    [CRAFT_ANTHROPIC_API_KEY; ANTHROPIC_API_KEY; CRAFT_CLAUDE_OAUTH_TOKEN;
     ANTHROPIC_AUTH_TOKEN].
Proof. reflexivity. Qed.

Lemma entry_vars_mapped (key : string) (envVars : list string) (envVar : string) :
  entry_of ENV_MAP key = Some envVars -> envVar ∈ envVars -> envVar ∈ mapped_vars.
Proof.
  rewrite ENV_MAP_entry. intros Hentry Hin. unfold mapped_vars.
  apply list_elem_of_In, in_concat. exists envVars. split.
  - apply list_elem_of_In, list_elem_of_fmap. by exists (key, envVars).
  - by apply list_elem_of_In.
Qed.

Lemma has_value_agree (e1 e2 : env) (entry : string * list string) :
  (forall envVar, envVar ∈ snd entry -> e1 !! envVar = e2 !! envVar) ->
  has_value e1 entry = has_value e2 entry.
Proof.
  intros Hagree. unfold has_value.
  induction (snd entry) as [| x rest IH]; [reflexivity|]. cbn [existsb].
  rewrite (Hagree x) by constructor. f_equal. apply IH.
  intros y Hy. apply Hagree. by constructor.
Qed.

Lemma filter_has_value_agree (entries : list (string * list string)) (e1 e2 : env) :
  (forall entry, entry ∈ entries -> has_value e1 entry = has_value e2 entry) ->
  base.filter (fun entry => has_value e1 entry = true) entries =
  base.filter (fun entry => has_value e2 entry = true) entries.
Proof.
  induction entries as [| entry rest IH]; intros Hagree; [reflexivity|].
  rewrite !filter_cons, (Hagree entry) by constructor.
  rewrite IH; [reflexivity|]. intros x Hx. apply Hagree. by constructor.
Qed.

Lemma list_agree (filter1 filter2 : option PartialCredentialId) (e1 e2 : env) :
  (forall envVar, envVar ∈ mapped_vars -> e1 !! envVar = e2 !! envVar) ->
  result_of (EnvironmentBackend.list filter1) e1 =
  result_of (EnvironmentBackend.list filter2) e2.
Proof.
  intros Hagree. unfold result_of. rewrite !list_run. cbn [fst]. do 3 f_equal.
  apply filter_has_value_agree. intros [key envVars] Hin.
  apply has_value_agree. cbn [snd]. intros envVar HenvVar. apply Hagree.
  apply (entry_vars_mapped key envVars); [by apply ENV_MAP_entry | exact HenvVar].
Qed.

(** X10. The Backend looks at the variables [ENV_MAP] mentions and at
    nothing else: setting or unsetting any other variable (for instance
    [ANTHROPIC_BASE_URL] or [CLAUDE_CODE_OAUTH_TOKEN]) changes neither what
    [get] returns for any id nor what [list] returns. *)
Theorem backend_reads_mapped_vars_only
    (name : string) (id : CredentialId)
    (filter : option PartialCredentialId) (e : env) :
  name ∉ mapped_vars ->
  (forall v,
     result_of (EnvironmentBackend.get id) (env_after (setenv name v) e) =
       result_of (EnvironmentBackend.get id) e /\
     result_of (EnvironmentBackend.list filter) (env_after (setenv name v) e) =
       result_of (EnvironmentBackend.list filter) e) /\
  result_of (EnvironmentBackend.get id) (env_after (unsetenv name) e) =
    result_of (EnvironmentBackend.get id) e /\
  result_of (EnvironmentBackend.list filter) (env_after (unsetenv name) e) =
    result_of (EnvironmentBackend.list filter) e.
Proof.
  intros Hout.
  assert (forall envVar, envVar ∈ mapped_vars -> name <> envVar) as Hne.
  { intros envVar Hin ->. by apply Hout. }
  unfold env_after, setenv, unsetenv. cbn [snd].
  split; [intros v; split | split].
  - apply get_agree. intros envVars Hentry envVar Hin.
    apply lookup_insert_ne, Hne. by apply (entry_vars_mapped (type id) envVars).
  - apply list_agree. intros envVar Hin. by apply lookup_insert_ne, Hne.
  - apply get_agree. intros envVars Hentry envVar Hin.
    apply lookup_delete_ne, Hne. by apply (entry_vars_mapped (type id) envVars).
  - apply list_agree. intros envVar Hin. by apply lookup_delete_ne, Hne.
Qed.

Lemma backend_reads_mapped_vars_only_witness :
  (forall v,
     result_of (EnvironmentBackend.get (global_id "anthropic_auth_token"))
       (env_after (setenv ANTHROPIC_BASE_URL v) env_with_proxy) =
       result_of (EnvironmentBackend.get (global_id "anthropic_auth_token")) env_with_proxy /\
     result_of (EnvironmentBackend.list None)
       (env_after (setenv ANTHROPIC_BASE_URL v) env_with_proxy) =
       result_of (EnvironmentBackend.list None) env_with_proxy) /\
  result_of (EnvironmentBackend.get (global_id "anthropic_auth_token"))
    (env_after (unsetenv ANTHROPIC_BASE_URL) env_with_proxy) =
    result_of (EnvironmentBackend.get (global_id "anthropic_auth_token")) env_with_proxy /\
  result_of (EnvironmentBackend.list None)
    (env_after (unsetenv ANTHROPIC_BASE_URL) env_with_proxy) =
    result_of (EnvironmentBackend.list None) env_with_proxy.
Proof.
  apply (backend_reads_mapped_vars_only ANTHROPIC_BASE_URL).
  rewrite mapped_vars_eq, !not_elem_of_cons. repeat split; try discriminate.
  apply not_elem_of_nil.
Defined.

(** X11. [list] returns the listed types in the order of [ENV_MAP]:
    its result is a sublist of
    [[anthropic_api_key; claude_oauth; anthropic_auth_token]], so it has
    at most three elements. *)
Theorem list_in_ENV_MAP_order (filter : option PartialCredentialId) (e : env) :
  exists ids,
    result_of (EnvironmentBackend.list filter) e = Returned ids /\
    ids `sublist_of`
      [global_id "anthropic_api_key"; global_id "claude_oauth";
       global_id "anthropic_auth_token"] /\
    length ids <= 3.
Proof.
  unfold result_of. rewrite list_run. cbn [fst]. eexists. split; [reflexivity|].
  assert ((global_id <$> (base.filter (fun entry => has_value e entry = true) ENV_MAP).*1)
            `sublist_of` (global_id <$> ENV_MAP.*1)) as Hsub.
  { apply fmap_sublist, fmap_sublist, sublist_filter. }
  split; [exact Hsub|]. by apply sublist_length in Hsub.
Qed.

(** X12. When [hasEnvProxyConfig] answers [true], [getEnvBaseUrl]
    returns a non-empty URL and the Backend resolves at least one of the
    credentials [anthropic_auth_token] and [anthropic_api_key]. *)
Theorem proxy_config_is_resolvable (e : env) :
  result_of hasEnvProxyConfig e = Returned true ->
  (exists url, result_of getEnvBaseUrl e = Returned (Some url) /\ url <> "") /\
  ((exists credential,
      result_of (EnvironmentBackend.get (global_id "anthropic_auth_token")) e =
        Returned (Some credential)) \/
   (exists credential,
      result_of (EnvironmentBackend.get (global_id "anthropic_api_key")) e =
        Returned (Some credential))).
Proof.
  change hasEnvProxyConfig with isProxyAuthConfigured.
  unfold result_of at 1. rewrite isProxyAuthConfigured_run. cbn [fst].
  intros [= Htrue]. apply andb_true_iff in Htrue as [Hbase Hany].
  apply orb_true_iff in Hany. rewrite !truthy_slot_nonempty in *.
  assert (~ scoped (global_id "anthropic_auth_token")) as Hglobal1.
  { intros (w & Hw & _). discriminate. }
  assert (~ scoped (global_id "anthropic_api_key")) as Hglobal2.
  { intros (w & Hw & _). discriminate. }
  split.
  - destruct Hbase as (url & Hurl & Hne). exists url. split; [|exact Hne].
    unfold result_of, getEnvBaseUrl, getenv. cbn [fst]. by rewrite Hurl.
  - destruct Hany as [Htoken | Hkey]; [left | right]; apply get_found.
    + split; [exact Hglobal1|]. eexists. split; [apply entry_anthropic_auth_token|].
      exists ANTHROPIC_AUTH_TOKEN. split; [by constructor | exact Htoken].
    + split; [exact Hglobal2|]. eexists. split; [apply entry_anthropic_api_key|].
      exists ANTHROPIC_API_KEY. split; [by do 2 constructor | exact Hkey].
Qed.

Lemma proxy_config_is_resolvable_witness :
  (exists url, result_of getEnvBaseUrl env_with_proxy = Returned (Some url) /\ url <> "") /\
  ((exists credential,
      result_of (EnvironmentBackend.get (global_id "anthropic_auth_token")) env_with_proxy =
        Returned (Some credential)) \/
   (exists credential,
      result_of (EnvironmentBackend.get (global_id "anthropic_api_key")) env_with_proxy =
        Returned (Some credential))).
Proof. apply (proxy_config_is_resolvable env_with_proxy). reflexivity. Defined.

(** X13. Priority lists compose: looking up the concatenation of two
    lists of variable names is looking up the first list and, only when it
    yields nothing, the second. *)
Theorem getEnvValue_app (first second : list string) (e : env) :
  getEnvValue (first ++ second) e =
    (let* found := getEnvValue first in
     if truthy found then ret found else getEnvValue second) e.
Proof.
  induction first as [| envVar rest IH]; [reflexivity|].
  cbn [app getEnvValue]. unfold bind, getenv.
  destruct (truthy (e !! envVar)) eqn:Hfound.
  - unfold ret at 2. by rewrite Hfound.
  - exact IH.
Qed.

(** X14. No stale proxy token: after a switch to api_key or oauth_token
    mode, and after a clear, [getEnvAuthToken] returns [undefined] and
    [get {type: anthropic_auth_token}] returns null, whatever
    [ANTHROPIC_AUTH_TOKEN] held before. *)
Theorem auth_token_dropped_outside_proxy_mode (e : env) :
  (forall auth,
     (forall c, auth <> proxy c) ->
     result_of getEnvAuthToken (env_after (setAuthEnvironment auth) e) = Returned None /\
     result_of (EnvironmentBackend.get (global_id "anthropic_auth_token"))
       (env_after (setAuthEnvironment auth) e) = Returned None) /\
  result_of getEnvAuthToken (env_after clearAuthEnvironment e) = Returned None /\
  result_of (EnvironmentBackend.get (global_id "anthropic_auth_token"))
    (env_after clearAuthEnvironment e) = Returned None.
Proof.
  assert (forall e' : env, e' !! ANTHROPIC_AUTH_TOKEN = None ->
            result_of getEnvAuthToken e' = Returned None /\
            result_of (EnvironmentBackend.get (global_id "anthropic_auth_token")) e' =
              Returned None) as Hunset.
  { intros e' Hnone. split.
    - unfold result_of, getEnvAuthToken, getenv. cbn [fst]. by rewrite Hnone.
    - unfold result_of.
      rewrite (get_global_run _ _ _ None entry_anthropic_auth_token); [reflexivity|].
      cbn [getEnvValue]. unfold bind, getenv. by rewrite Hnone. }
  split.
  - intros auth Hmode. apply Hunset.
    rewrite setAuthEnvironment_slot by auto.
    destruct auth as [c | c | c]; [reflexivity | reflexivity | by destruct (Hmode c)].
  - apply Hunset. unfold env_after. rewrite clearAuthEnvironment_run.
    by apply cleared_managed.
Qed.
